(** * Great-circle angle between two azimuth/elevation directions

    A shallow embedding of [main.py]: the two helpers [azel_to_vec] and
    [angle_between], the example angles of the script and the analytic
    cross-check [J_trig].

    The script computes with NumPy doubles.  The embedding reads every
    arithmetic operation of the source over the real numbers [R] of the
    Standard Library (exact arithmetic, no rounding).  The two places where
    NumPy produces a value that is not a real number are kept as explicit
    [None] results: a division by a zero norm and an inverse cosine outside
    [-1, 1].

    Rounding enters the statements in two ways.  A computed value is taken
    as any real number within a stated distance of the exact one (a computed
    dot product [c] near [np.dot v w], a computed sum [s] near [az + PI]),
    and the result is bounded for all of them.  Sums of concrete doubles are
    evaluated with [PrimFloat]. *)

From Stdlib Require Import Floats Reals Lra Lia Factorial String List.
Import ListNotations.

#[local] Open Scope R_scope.

(** ** The NumPy operations the script uses *)

(** A one-dimensional array of three doubles, [np.array([x, y, z])]. *)
Record vec3 : Type := Vec3 { vx : R; vy : R; vz : R }.

Module np.

(** [np.clip(a, lo, hi)] is [minimum(maximum(a, lo), hi)]. *)
Definition clip (a lo hi : R) : R := Rmin (Rmax a lo) hi.

(** [np.dot(v1, v2)] on two arrays of length three. *)
Definition dot (v1 v2 : vec3) : R :=
  vx v1 * vx v2 + vy v1 * vy v2 + vz v1 * vz v2.

(** [np.linalg.norm(v)]: the Euclidean norm. *)
Definition linalg_norm (v : vec3) : R :=
  sqrt (vx v * vx v + vy v * vy v + vz v * vz v).

(** [v / n], an array divided by a scalar.  NumPy answers [nan] or [inf]
    components when [n] is zero; that outcome is [None]. *)
Definition divide (v : vec3) (n : R) : option vec3 :=
  if Req_dec_T n 0 then None
  else Some (Vec3 (vx v / n) (vy v / n) (vz v / n)).

(** [np.arccos(c)]: the inverse cosine on [-1, 1]; outside of it NumPy
    answers [nan] (the domain error), which is [None]. *)
Definition arccos (c : R) : option R :=
  if Rle_dec (-1) c then
    if Rle_dec c 1 then Some (acos c) else None
  else None.

(** [np.radians] and [np.degrees]. *)
Definition radians (d : R) : R := d * (PI / 180).
Definition degrees (r : R) : R := r * (180 / PI).

(** [np.linspace(start, stop, num)]: [num] evenly spaced samples, both end
    points included.  NumPy computes [start + i * step] with
    [step = (stop - start) / (num - 1)]. *)
Definition linspace (start stop : R) (num : nat) : list R :=
  map (fun i => start + INR i * ((stop - start) / INR (num - 1)))
      (seq 0 num).

(** [np.outer(a, b)]: the matrix of the products [a[i] * b[j]]. *)
Definition outer (a b : list R) : list (list R) :=
  map (fun x => map (fun y => x * y) b) a.

(** [np.ones_like(a)]. *)
Definition ones_like (a : list R) : list R := map (fun _ => 1) a.

(** [np.pi], the double nearest to PI: 3.141592653589793. *)
Definition pi : float := 0x1.921fb54442d18p+1%float.

End np.

(** ** Doubles

    Where a property adds a constant to an input angle ([az + np.pi],
    [az + 2 * np.pi]) the sum is a sum of doubles.  It is computed with the
    binary64 arithmetic of [PrimFloat] and read back as a real number. *)

(** The real number a finite double stands for; [None] for an infinity
    or a NaN. *)
Definition double_to_R (f : float) : option R :=
  match Prim2SF f with
  | S754_zero _ => Some 0
  | S754_finite s m e =>
      Some ((if s then -1 else 1) * IZR (Zpos m) * powerRZ 2 e)
  | S754_infinity _ => None
  | S754_nan => None
  end.

(** Sequencing of results that may be [None]. *)
Definition bind {A B : Type} (m : option A) (f : A -> option B) : option B :=
  match m with
  | Some a => f a
  | None => None
  end.

Notation "x <- m ;; k" := (bind m (fun x => k))
  (at level 61, m at next level, right associativity).

(** ** The helpers of the script *)

(** The array [v] built on lines 21-25 of [azel_to_vec], before the
    normalisation of line 26. *)
Definition azel_raw (az el : R) : vec3 :=
  let ce := cos el in
  let x := ce * cos az in
  let y := ce * sin az in
  let z := sin el in
  Vec3 x y z.

(** [azel_to_vec(az, el)]. *)
Definition azel_to_vec (az el : R) : option vec3 :=
  let v := azel_raw az el in
  np.divide v (np.linalg_norm v).

(** [angle_between(v1, v2)]. *)
Definition angle_between (v1 v2 : vec3) : option R :=
  let c := np.clip (np.dot v1 v2) (-1) 1 in
  np.arccos c.

(** ** The driver, parametrised by the four example angles in radians *)

(** Lines 42-46: the vector method. *)
Definition J_of (az_t el_t az_r el_r : R) : option R :=
  vT <- azel_to_vec az_t el_t ;;
  vR <- azel_to_vec az_r el_r ;;
  angle_between vT vR.

(** Line 51. *)
Definition cosJ_trig_of (az_t el_t az_r el_r : R) : R :=
  sin el_t * sin el_r + cos el_t * cos el_r * cos (az_t - az_r).

(** Line 52 without the final conversion to degrees. *)
Definition J_trig_rad_of (az_t el_t az_r el_r : R) : option R :=
  np.arccos (np.clip (cosJ_trig_of az_t el_t az_r el_r) (-1) 1).

(** ** The script itself, lines 35-52 *)

Definition AZ_T_deg : R := 40.
Definition EL_T_deg : R := 25.
Definition AZ_R_deg : R := 10.
Definition EL_R_deg : R := 5.

Definition AZ_T : R := np.radians AZ_T_deg.
Definition EL_T : R := np.radians EL_T_deg.
Definition AZ_R : R := np.radians AZ_R_deg.
Definition EL_R : R := np.radians EL_R_deg.

Definition vT : option vec3 := azel_to_vec AZ_T EL_T.
Definition vR : option vec3 := azel_to_vec AZ_R EL_R.

Definition J : option R :=
  t <- vT ;; r <- vR ;; angle_between t r.
Definition J_deg : option R := option_map np.degrees J.

Definition cosJ_trig : R :=
  sin EL_T * sin EL_R + cos EL_T * cos EL_R * cos (AZ_T - AZ_R).
Definition J_trig : option R :=
  option_map np.degrees (np.arccos (np.clip cosJ_trig (-1) 1)).

(** ** The plot, lines 57-88 *)

(** What the script hands to the 3D axes, one constructor per drawing call
    with the arguments of the call. *)
Inductive artist : Type :=
| plot_wireframe (X Y Z : list (list R)) (linewidth alpha : R)
| plot (X Y Z : list R)
| quiver (x y z u v w : R) (length arrow_length_ratio : R)
| text (x y z : R) (s : string) (fontsize : R).

(** [g[i][j]]; an index out of range is [None]. *)
Definition grid_at (g : list (list R)) (i j : nat) : option R :=
  row <- nth_error g i ;; nth_error row j.

Module sphere.

(** Lines 61-64: the unit sphere wireframe. *)
Definition u : list R := np.linspace 0 (2 * PI) 60.
Definition v : list R := np.linspace 0 PI 30.
Definition xs : list (list R) := np.outer (map cos u) (map sin v).
Definition ys : list (list R) := np.outer (map sin u) (map sin v).
Definition zs : list (list R) := np.outer (np.ones_like u) (map cos v).

End sphere.

(** Line 68. *)
Definition L : R := 1.2.

(** Lines 65-82 as a function of the two arrows, in the order of the calls. *)
Definition draw (vR vT : vec3) : list artist :=
  [ plot_wireframe sphere.xs sphere.ys sphere.zs 0.3 0.4;
    plot [0; L] [0; 0] [0; 0];
    plot [0; 0] [0; L] [0; 0];
    plot [0; 0] [0; 0] [0; L];
    quiver 0 0 0 (vx vR) (vy vR) (vz vR) 1.0 0.08;
    quiver 0 0 0 (vx vT) (vy vT) (vz vT) 1.0 0.08;
    text (vx vR * 1.05) (vy vR * 1.05) (vz vR * 1.05) "R" 10;
    text (vx vT * 1.05) (vy vT * 1.05) (vz vT * 1.05) "T" 10;
    text 1.05 0 0 "N (AZ=0°)" 9;
    text 0 1.05 0 "E (AZ=90°)" 9;
    text 0 0 1.05 "Up" 9 ].

(** Lines 85-87: the limits of the three axes. *)
Definition xlim : R * R := (-1.2, 1.2).
Definition ylim : R * R := (-1.2, 1.2).
Definition zlim : R * R := (-1.2, 1.2).

(** The whole figure of the script: the arrows are the two encoded
    directions of lines 42-43. *)
Definition figure_of (az_t el_t az_r el_r : R) : option (list artist) :=
  vT <- azel_to_vec az_t el_t ;;
  vR <- azel_to_vec az_r el_r ;;
  Some (draw vR vT).

(** The points of space an artist is anchored at: the vertices of a
    wireframe or of a line, the tail and the tip of an arrow (the tip is
    [length] times the direction away from the tail), the anchor of a
    text. *)
Definition points (a : artist) : list vec3 :=
  match a with
  | plot_wireframe X Y Z _ _ =>
      map (fun p => Vec3 (fst (fst p)) (snd (fst p)) (snd p))
          (combine (combine (concat X) (concat Y)) (concat Z))
  | plot X Y Z =>
      map (fun p => Vec3 (fst (fst p)) (snd (fst p)) (snd p))
          (combine (combine X Y) Z)
  | quiver x y z u v w length _ =>
      [ Vec3 x y z; Vec3 (x + length * u) (y + length * v) (z + length * w) ]
  | text x y z _ _ => [ Vec3 x y z ]
  end.

(** A point inside the box the axes show. *)
Definition in_limits (p : vec3) : Prop :=
  fst xlim <= vx p <= snd xlim
  /\ fst ylim <= vy p <= snd ylim
  /\ fst zlim <= vz p <= snd zlim.

(** ** Proof steps shared by the numerical lemmas *)

(** Unfolds a partial sum of the sine or cosine series into its terms. *)
Ltac taylor_sum approx term :=
  unfold approx; cbn [sum_f_R0]; unfold term; cbn [Nat.mul Nat.add].

(** Encloses [sin] or [cos] of [d] degrees: [rb] encloses the angle in
    radians between two rationals, [between] is the Taylor enclosure there,
    and the remaining closed rational inequalities are left to [lra]. *)
Ltac enclose_deg rb between d :=
  destruct (rb d) as [? ?]; [ lra | ];
  apply (between _ (d * (3.1415926 / 180)) (d * (3.1415927 / 180)));
  [ split | | | | ]; lra.

(** ** Basic facts about the NumPy operations *)

Lemma clip_range (a : R) : -1 <= np.clip a (-1) 1 <= 1.
Proof.
  unfold np.clip, Rmin, Rmax.
  destruct (Rle_dec a (-1)); destruct (Rle_dec _ 1); lra.
Qed.

Lemma clip_id (a : R) : -1 <= a <= 1 -> np.clip a (-1) 1 = a.
Proof.
  intros [Hlo Hhi]. unfold np.clip, Rmin, Rmax.
  destruct (Rle_dec a (-1)); destruct (Rle_dec _ 1); lra.
Qed.

Lemma arccos_in_range (c : R) : -1 <= c <= 1 -> np.arccos c = Some (acos c).
Proof.
  intros [Hlo Hhi]. unfold np.arccos.
  destruct (Rle_dec (-1) c); [ | contradiction ].
  destruct (Rle_dec c 1); [ reflexivity | contradiction ].
Qed.

Lemma arccos_clip (a : R) :
  np.arccos (np.clip a (-1) 1) = Some (acos (np.clip a (-1) 1)).
Proof. apply arccos_in_range, clip_range. Qed.

Lemma dot_comm (v1 v2 : vec3) : np.dot v1 v2 = np.dot v2 v1.
Proof. unfold np.dot. ring. Qed.

Lemma divide_by_one (v : vec3) : np.divide v 1 = Some v.
Proof.
  unfold np.divide. destruct (Req_dec_T 1 0) as [H | _]; [ lra | ].
  destruct v as [x y z]; simpl. f_equal. f_equal; field.
Qed.

(** ** The raw vector of the encoder *)

Lemma sin2_cos2_mult (x : R) : sin x * sin x + cos x * cos x = 1.
Proof. exact (sin2_cos2 x). Qed.

Lemma azel_raw_sq (az el : R) :
  let v := azel_raw az el in
  vx v * vx v + vy v * vy v + vz v * vz v = 1.
Proof.
  simpl.
  pose proof (sin2_cos2_mult az) as Ha.
  pose proof (sin2_cos2_mult el) as He.
  replace (cos el * cos az * (cos el * cos az)
           + cos el * sin az * (cos el * sin az) + sin el * sin el)
    with (cos el * cos el * (sin az * sin az + cos az * cos az)
          + sin el * sin el) by ring.
  rewrite Ha. lra.
Qed.

Lemma azel_raw_norm (az el : R) : np.linalg_norm (azel_raw az el) = 1.
Proof.
  unfold np.linalg_norm. rewrite (azel_raw_sq az el). apply sqrt_1.
Qed.

Lemma azel_to_vec_raw (az el : R) : azel_to_vec az el = Some (azel_raw az el).
Proof.
  unfold azel_to_vec. cbv zeta. rewrite azel_raw_norm. apply divide_by_one.
Qed.

Lemma dot_azel_raw (az1 el1 az2 el2 : R) :
  np.dot (azel_raw az1 el1) (azel_raw az2 el2)
  = cosJ_trig_of az1 el1 az2 el2.
Proof.
  unfold np.dot, cosJ_trig_of; simpl. rewrite cos_minus. ring.
Qed.

Lemma dot_self (v : vec3) :
  np.dot v v = vx v * vx v + vy v * vy v + vz v * vz v.
Proof. reflexivity. Qed.

Lemma norm_one_dot (v : vec3) : np.linalg_norm v = 1 -> np.dot v v = 1.
Proof.
  unfold np.linalg_norm. rewrite dot_self. intros H.
  set (s := vx v * vx v + vy v * vy v + vz v * vz v) in *.
  assert (Hs : 0 <= s) by (unfold s; nra).
  rewrite <- (sqrt_sqrt s Hs), H. ring.
Qed.

Lemma J_of_raw (az1 el1 az2 el2 : R) :
  J_of az1 el1 az2 el2
  = angle_between (azel_raw az1 el1) (azel_raw az2 el2).
Proof. unfold J_of. rewrite !azel_to_vec_raw. reflexivity. Qed.

(** ** The encoder *)

(** C3: for all real [az] and [el] the encoder answers the raw vector
    [(cos el * cos az, cos el * sin az, sin el)] divided by its Euclidean
    norm; that norm is 1, so the division is defined (no [None]) and the
    answer is the raw vector itself. *)
Theorem C3_encoder_is_normalised_raw (az el : R) :
  let raw := Vec3 (cos el * cos az) (cos el * sin az) (sin el) in
  azel_to_vec az el = np.divide raw (np.linalg_norm raw)
  /\ np.linalg_norm raw = 1
  /\ azel_to_vec az el = Some raw.
Proof.
  cbv zeta. split; [ reflexivity | split ].
  - exact (azel_raw_norm az el).
  - exact (azel_to_vec_raw az el).
Qed.

(** C4: for all real [az] and [el] the encoder produces a vector, and its
    Euclidean norm is 1, so in particular within 1e-9 of 1. *)
Theorem C4_encoder_unit_length (az el : R) :
  exists v, azel_to_vec az el = Some v
            /\ np.linalg_norm v = 1
            /\ Rabs (np.linalg_norm v - 1) <= 1 / 1000000000.
Proof.
  exists (azel_raw az el). split; [ apply azel_to_vec_raw | ].
  rewrite azel_raw_norm. split; [ reflexivity | ].
  replace (1 - 1) with 0 by ring. rewrite Rabs_R0. lra.
Qed.

(** C5: the encoder sends (0, 0) to the North axis (1, 0, 0), (PI/2, 0) to
    the East axis (0, 1, 0) and (0, PI/2) to the Up axis (0, 0, 1). *)
Theorem C5_encoder_axes :
  azel_to_vec 0 0 = Some (Vec3 1 0 0)
  /\ azel_to_vec (PI / 2) 0 = Some (Vec3 0 1 0)
  /\ azel_to_vec 0 (PI / 2) = Some (Vec3 0 0 1).
Proof.
  rewrite !azel_to_vec_raw. unfold azel_raw; cbv zeta.
  rewrite cos_0, sin_0, cos_PI2, sin_PI2.
  repeat split; do 2 f_equal; ring.
Qed.

(** ** The calculator *)

(** C6: on every pair of vectors (unit or not) the calculator clamps the dot
    product into [-1, 1], so the inverse cosine is taken inside its domain,
    the domain-error result [None] does not occur, and the angle returned
    lies in [0, PI]. *)
Theorem C6_calculator_total_in_range (v1 v2 : vec3) :
  -1 <= np.clip (np.dot v1 v2) (-1) 1 <= 1
  /\ angle_between v1 v2 <> None
  /\ exists a, angle_between v1 v2 = Some a /\ 0 <= a <= PI.
Proof.
  split; [ apply clip_range | ].
  unfold angle_between; cbv zeta. rewrite arccos_clip.
  split; [ discriminate | ].
  eexists; split; [ reflexivity | apply acos_bound ].
Qed.

(** C8: the calculator is symmetric in its two arguments. *)
Theorem C8_calculator_symmetric (v1 v2 : vec3) :
  angle_between v1 v2 = angle_between v2 v1.
Proof. unfold angle_between. rewrite (dot_comm v1 v2). reflexivity. Qed.

(** ** Agreement of the two methods *)

(** C1: for all four input angles (in particular for azimuths in [-PI, PI]
    and elevations in [-PI/2, PI/2]) the vector method and the analytic
    spherical law of cosines both return an angle, and the two angles are
    equal, hence less than 1e-6 radians apart. *)
Theorem C1_vector_and_analytic_agree (az_t el_t az_r el_r : R) :
  exists a b,
    J_of az_t el_t az_r el_r = Some a
    /\ J_trig_rad_of az_t el_t az_r el_r = Some b
    /\ a = b
    /\ Rabs (a - b) < 1 / 1000000.
Proof.
  rewrite J_of_raw. unfold angle_between, J_trig_rad_of; cbv zeta.
  rewrite dot_azel_raw, arccos_clip.
  do 2 eexists. repeat split; try reflexivity.
  replace (_ - _) with 0 by ring. rewrite Rabs_R0. lra.
Qed.

(** ** Numerical enclosures for the example angles *)

(** Seven digits of PI, from the Machin-like series of the library. *)
Lemma PI_bounds : 3.1415926 < PI < 3.1415927.
Proof.
  pose proof (PI_2_3_7_ineq 3) as [Hlo Hhi].
  unfold PI_2_3_7_tg, tg_alt, Ratan_seq in Hlo, Hhi.
  cbn [sum_f_R0 Nat.mul Nat.add] in Hlo, Hhi.
  rewrite !INR_IZR_INZ in Hlo. rewrite !INR_IZR_INZ in Hhi.
  cbn [Z.of_nat Pos.of_succ_nat Pos.succ] in Hlo, Hhi.
  split; lra.
Qed.

Lemma fact_INR (n : nat) (z : Z) :
  Z.of_nat (fact n) = z -> INR (fact n) = IZR z.
Proof. intros <-. apply INR_IZR_INZ. Qed.

Lemma sin_approx_3 (a : R) :
  sin_approx a 3 = a - a^3/6 + a^5/120 - a^7/5040.
Proof.
  taylor_sum sin_approx sin_term.
  rewrite (fact_INR 1 1), (fact_INR 3 6), (fact_INR 5 120), (fact_INR 7 5040)
    by (vm_compute; reflexivity).
  field.
Qed.

Lemma sin_approx_4 (a : R) :
  sin_approx a 4 = a - a^3/6 + a^5/120 - a^7/5040 + a^9/362880.
Proof.
  taylor_sum sin_approx sin_term.
  rewrite (fact_INR 1 1), (fact_INR 3 6), (fact_INR 5 120), (fact_INR 7 5040),
    (fact_INR 9 362880) by (vm_compute; reflexivity).
  field.
Qed.

Lemma cos_approx_3 (a : R) :
  cos_approx a 3 = 1 - a^2/2 + a^4/24 - a^6/720.
Proof.
  taylor_sum cos_approx cos_term.
  rewrite (fact_INR 0 1), (fact_INR 2 2), (fact_INR 4 24), (fact_INR 6 720)
    by (vm_compute; reflexivity).
  field.
Qed.

Lemma cos_approx_4 (a : R) :
  cos_approx a 4 = 1 - a^2/2 + a^4/24 - a^6/720 + a^8/40320.
Proof.
  taylor_sum cos_approx cos_term.
  rewrite (fact_INR 0 1), (fact_INR 2 2), (fact_INR 4 24), (fact_INR 6 720),
    (fact_INR 8 40320) by (vm_compute; reflexivity).
  field.
Qed.

(** An angle [a] enclosed by two rationals [p <= a <= q] in the first
    quadrant: the sine is enclosed by the Taylor polynomials at [p] and [q]
    (the sine increases there), the cosine by those at [q] and [p]. *)
Lemma sin_between (a p q lo hi : R) :
  0 <= p <= a -> a <= q -> q <= 3 / 2 ->
  lo <= p - p^3/6 + p^5/120 - p^7/5040 ->
  q - q^3/6 + q^5/120 - q^7/5040 + q^9/362880 <= hi ->
  lo <= sin a <= hi.
Proof.
  intros [Hp Hpa] Haq Hq Hlo Hhi.
  pose proof PI2_3_2 as Hpi.
  destruct (pre_sin_bound p 1) as [Hp3 _]; [ lra | lra | ].
  destruct (pre_sin_bound q 1) as [_ Hq4]; [ lra | lra | ].
  change (2 * 1 + 1)%nat with 3%nat in Hp3. rewrite sin_approx_3 in Hp3.
  change (2 * (1 + 1))%nat with 4%nat in Hq4. rewrite sin_approx_4 in Hq4.
  assert (sin p <= sin a) by (apply sin_incr_1; lra).
  assert (sin a <= sin q) by (apply sin_incr_1; lra).
  lra.
Qed.

Lemma cos_between (a p q lo hi : R) :
  0 <= p <= a -> a <= q -> q <= 3 / 2 ->
  lo <= 1 - q^2/2 + q^4/24 - q^6/720 ->
  1 - p^2/2 + p^4/24 - p^6/720 + p^8/40320 <= hi ->
  lo <= cos a <= hi.
Proof.
  intros [Hp Hpa] Haq Hq Hlo Hhi.
  pose proof PI2_3_2 as Hpi.
  destruct (pre_cos_bound q 1) as [Hq3 _]; [ lra | lra | ].
  destruct (pre_cos_bound p 1) as [_ Hp4]; [ lra | lra | ].
  change (2 * 1 + 1)%nat with 3%nat in Hq3. rewrite cos_approx_3 in Hq3.
  change (2 * (1 + 1))%nat with 4%nat in Hp4. rewrite cos_approx_4 in Hp4.
  assert (cos a <= cos p) by (apply cos_decr_1; lra).
  assert (cos q <= cos a) by (apply cos_decr_1; lra).
  lra.
Qed.

Lemma radians_between (d : R) :
  0 <= d ->
  d * (3.1415926 / 180) <= np.radians d <= d * (3.1415927 / 180).
Proof.
  intros Hd. pose proof PI_bounds as [Hlo Hhi]. unfold np.radians.
  split; apply Rmult_le_compat_l; lra.
Qed.

Lemma sin_25deg : 0.4226182 <= sin (np.radians 25) <= 0.4226183.
Proof. enclose_deg radians_between sin_between 25. Qed.

Lemma sin_5deg : 0.0871557 <= sin (np.radians 5) <= 0.0871558.
Proof. enclose_deg radians_between sin_between 5. Qed.

Lemma cos_25deg : 0.9063077 <= cos (np.radians 25) <= 0.9063078.
Proof. enclose_deg radians_between cos_between 25. Qed.

Lemma cos_5deg : 0.9961946 <= cos (np.radians 5) <= 0.9961947.
Proof. enclose_deg radians_between cos_between 5. Qed.

Lemma cos_30deg : 0.8660252 <= cos (np.radians 30) <= 0.8660255.
Proof. enclose_deg radians_between cos_between 30. Qed.

Lemma cos_35_04deg : 0.8187509 <= cos (np.radians 35.04) <= 0.8187515.
Proof. enclose_deg radians_between cos_between 35.04. Qed.

Lemma cos_35_05deg : 0.8186507 <= cos (np.radians 35.05) <= 0.8186513.
Proof. enclose_deg radians_between cos_between 35.05. Qed.

Lemma prod_between (x y xl xh yl yh : R) :
  0 <= xl -> 0 <= yl -> xl <= x <= xh -> yl <= y <= yh ->
  xl * yl <= x * y <= xh * yh.
Proof.
  intros Hxl Hyl [Hx1 Hx2] [Hy1 Hy2].
  split; apply Rmult_le_compat; lra.
Qed.

Lemma azimuth_difference : AZ_T - AZ_R = np.radians 30.
Proof.
  unfold AZ_T, AZ_R, AZ_T_deg, AZ_R_deg, np.radians. field.
Qed.

Lemma cosJ_trig_bounds : 0.8187320 <= cosJ_trig <= 0.8187326.
Proof.
  unfold cosJ_trig. rewrite azimuth_difference.
  unfold EL_T, EL_R, EL_T_deg, EL_R_deg.
  pose proof sin_25deg as Hs25. pose proof sin_5deg as Hs5.
  pose proof cos_25deg as Hc25. pose proof cos_5deg as Hc5.
  pose proof cos_30deg as Hc30.
  assert (Hss := fun xl yl => prod_between _ _ 0.4226182 _ 0.0871557 _
                               xl yl Hs25 Hs5).
  assert (Hcc := fun xl yl => prod_between _ _ 0.9063077 _ 0.9961946 _
                               xl yl Hc25 Hc5).
  specialize (Hss ltac:(lra) ltac:(lra)).
  specialize (Hcc ltac:(lra) ltac:(lra)).
  assert (Hccc := fun xl yl => prod_between _ _ _ _ 0.8660252 _
                                xl yl Hcc Hc30).
  specialize (Hccc ltac:(lra) ltac:(lra)).
  lra.
Qed.

(** The inverse cosine reverses strict inequalities against a cosine. *)
Lemma acos_above (c a : R) :
  -1 <= c <= 1 -> 0 <= a <= PI -> c < cos a -> a < acos c.
Proof.
  intros Hc Ha Hlt.
  destruct (Rlt_dec a (acos c)) as [ | Hn ]; [ assumption | exfalso ].
  pose proof (acos_bound c) as Hb.
  assert (Hle : cos a <= cos (acos c)) by (apply cos_decr_1; lra).
  rewrite cos_acos in Hle by assumption. lra.
Qed.

Lemma acos_below (c a : R) :
  -1 <= c <= 1 -> 0 <= a <= PI -> cos a < c -> acos c < a.
Proof.
  intros Hc Ha Hlt.
  destruct (Rlt_dec (acos c) a) as [ | Hn ]; [ assumption | exfalso ].
  pose proof (acos_bound c) as Hb.
  assert (Hle : cos (acos c) <= cos a) by (apply cos_decr_1; lra).
  rewrite cos_acos in Hle by lra. lra.
Qed.

Lemma degrees_radians (d : R) : np.degrees (np.radians d) = d.
Proof. unfold np.degrees, np.radians. field. apply PI_neq0. Qed.

Lemma degrees_lt (x y : R) : x < y -> np.degrees x < np.degrees y.
Proof.
  intros H. unfold np.degrees. apply Rmult_lt_compat_r; [ | assumption ].
  pose proof PI_RGT_0. apply Rdiv_lt_0_compat; lra.
Qed.

Lemma acos_cosJ_trig_degrees :
  35.04 < np.degrees (acos cosJ_trig) < 35.05.
Proof.
  pose proof cosJ_trig_bounds as Hc.
  pose proof PI_bounds as Hpi.
  pose proof cos_35_04deg as H04.
  pose proof cos_35_05deg as H05.
  assert (Hr04 : 0 <= np.radians 35.04 <= PI)
    by (unfold np.radians; lra).
  assert (Hr05 : 0 <= np.radians 35.05 <= PI)
    by (unfold np.radians; lra).
  split.
  - rewrite <- (degrees_radians 35.04) at 1.
    apply degrees_lt, acos_above; lra.
  - rewrite <- (degrees_radians 35.05) at 1.
    apply degrees_lt, acos_below; lra.
Qed.

(** ** The values the script prints *)

Lemma J_value : J = Some (acos cosJ_trig).
Proof.
  change J with (J_of AZ_T EL_T AZ_R EL_R). rewrite J_of_raw.
  unfold angle_between; cbv zeta. rewrite dot_azel_raw.
  change (cosJ_trig_of AZ_T EL_T AZ_R EL_R) with cosJ_trig.
  pose proof cosJ_trig_bounds.
  rewrite clip_id by lra. apply arccos_in_range; lra.
Qed.

Lemma J_trig_rad_value :
  np.arccos (np.clip cosJ_trig (-1) 1) = Some (acos cosJ_trig).
Proof.
  pose proof cosJ_trig_bounds.
  rewrite clip_id by lra. apply arccos_in_range; lra.
Qed.

(** C2, as the specification words it, fails: with the example angles
    40, 25, 10 and 5 degrees the vector-method angle that the script prints
    is not between 31.4 and 31.5 degrees. *)
Lemma C2_not_near_31_46_degrees :
  ~ (exists j t a b,
        J_deg = Some j /\ J_trig = Some t
        /\ 31.4 <= j <= 31.5 /\ 31.4 <= t <= 31.5
        /\ J = Some a /\ np.arccos (np.clip cosJ_trig (-1) 1) = Some b
        /\ Rabs (a - b) < 1 / 1000000).
Proof.
  intros (j & t & a & b & Hj & _ & Hrange & _).
  unfold J_deg in Hj. rewrite J_value in Hj. simpl in Hj.
  injection Hj as <-.
  pose proof acos_cosJ_trig_degrees. lra.
Qed.

(** C2, amended: with the example angles 40, 25, 10 and 5 degrees the
    vector method and the analytic formula both return the inverse cosine
    of sin(25)sin(5) + cos(25)cos(5)cos(30) (angles in degrees), the two
    radian values are equal (hence less than 1e-6 apart), and both printed
    values lie between 35.04 and 35.05 degrees. *)
Theorem C2_example_angle_is_35_04_degrees :
  exists j t a b,
    J_deg = Some j /\ J_trig = Some t
    /\ 35.04 < j < 35.05 /\ 35.04 < t < 35.05
    /\ J = Some a /\ np.arccos (np.clip cosJ_trig (-1) 1) = Some b
    /\ a = acos (sin (np.radians 25) * sin (np.radians 5)
                 + cos (np.radians 25) * cos (np.radians 5)
                   * cos (np.radians 30))
    /\ a = b
    /\ Rabs (a - b) < 1 / 1000000.
Proof.
  exists (np.degrees (acos cosJ_trig)), (np.degrees (acos cosJ_trig)),
    (acos cosJ_trig), (acos cosJ_trig).
  pose proof acos_cosJ_trig_degrees as Hdeg.
  unfold J_deg, J_trig. rewrite J_value, J_trig_rad_value. simpl.
  repeat split; try reflexivity; try apply Hdeg.
  - unfold cosJ_trig. rewrite azimuth_difference. reflexivity.
  - replace (_ - _) with 0 by ring. rewrite Rabs_R0. lra.
Qed.

(** * Further properties of the script *)

(** ** Auxiliary facts *)

Lemma cauchy_schwarz3 (v1 v2 : vec3) :
  np.dot v1 v2 * np.dot v1 v2 <= np.dot v1 v1 * np.dot v2 v2.
Proof.
  destruct v1 as [x1 y1 z1], v2 as [x2 y2 z2]. unfold np.dot; simpl.
  pose proof (Rle_0_sqr (x1 * y2 - x2 * y1)) as H1.
  pose proof (Rle_0_sqr (x1 * z2 - x2 * z1)) as H2.
  pose proof (Rle_0_sqr (y1 * z2 - y2 * z1)) as H3.
  unfold Rsqr in H1, H2, H3. nra.
Qed.

Lemma unit_dot_range (v1 v2 : vec3) :
  np.linalg_norm v1 = 1 -> np.linalg_norm v2 = 1 ->
  -1 <= np.dot v1 v2 <= 1.
Proof.
  intros H1 H2. pose proof (cauchy_schwarz3 v1 v2) as Hcs.
  rewrite (norm_one_dot v1 H1), (norm_one_dot v2 H2) in Hcs. nra.
Qed.

Lemma angle_between_unit (v1 v2 : vec3) :
  np.linalg_norm v1 = 1 -> np.linalg_norm v2 = 1 ->
  angle_between v1 v2 = Some (acos (np.dot v1 v2)).
Proof.
  intros H1 H2. pose proof (unit_dot_range v1 v2 H1 H2) as Hr.
  unfold angle_between; cbv zeta.
  rewrite clip_id by exact Hr. now apply arccos_in_range.
Qed.

Lemma acos_at_most (c a : R) :
  -1 <= c <= 1 -> 0 <= a <= PI -> cos a <= c -> acos c <= a.
Proof.
  intros Hc Ha Hle.
  destruct (Rle_dec (acos c) a) as [ | Hn ]; [ assumption | exfalso ].
  pose proof (acos_bound c) as Hb.
  assert (Hlt : cos (acos c) < cos a) by (apply cos_decreasing_1; lra).
  rewrite cos_acos in Hlt by assumption. lra.
Qed.

Lemma acos_cos_abs (d : R) : - PI <= d <= PI -> acos (cos d) = Rabs d.
Proof.
  intros Hd. unfold Rabs. destruct (Rcase_abs d) as [Hneg | Hpos].
  - rewrite <- cos_neg. apply acos_cos. lra.
  - apply acos_cos. lra.
Qed.

(** ** Degrees and radians (lines 38-39, 47 and 52) *)


(** ** The calculator on unit and on other vectors (lines 28-32) *)

(** X4: the calculator does not check that its arguments have norm 1; a dot
    product of 1 or more is clamped and gives the angle 0, and then the
    opposite second vector gives the angle PI. *)
Theorem angle_saturates (v1 v2 : vec3) :
  1 <= np.dot v1 v2 ->
  angle_between v1 v2 = Some 0
  /\ angle_between v1 (Vec3 (- vx v2) (- vy v2) (- vz v2)) = Some PI.
Proof.
  intros Hd. unfold angle_between; cbv zeta. split.
  - assert (Hc : np.clip (np.dot v1 v2) (-1) 1 = 1).
    { unfold np.clip, Rmin, Rmax.
      destruct (Rle_dec _ (-1)); destruct (Rle_dec _ 1); lra. }
    rewrite Hc, arccos_in_range by lra. now rewrite acos_1.
  - assert (Hn : np.dot v1 (Vec3 (- vx v2) (- vy v2) (- vz v2))
                 = - np.dot v1 v2) by (unfold np.dot; simpl; ring).
    assert (Hc : np.clip (- np.dot v1 v2) (-1) 1 = -1).
    { unfold np.clip, Rmin, Rmax.
      destruct (Rle_dec _ (-1)); destruct (Rle_dec _ 1); lra. }
    rewrite Hn, Hc, arccos_in_range by lra.
    f_equal. replace (-1) with (- (1)) by ring.
    rewrite acos_opp, acos_1. ring.
Qed.

Lemma angle_saturates_witness :
  angle_between (Vec3 2 0 0) (Vec3 2 0 0) = Some 0
  /\ angle_between (Vec3 2 0 0) (Vec3 (- 2) (- 0) (- 0)) = Some PI.
Proof.
  apply (angle_saturates (Vec3 2 0 0) (Vec3 2 0 0)).
  unfold np.dot; simpl. lra.
Defined.

Lemma square_le_lower (x y : R) : 0 <= y -> x * x <= y * y -> - y <= x.
Proof. intros Hy Hxy. nra. Qed.

(** ** Encoder and calculator together (lines 16-32 and 42-46) *)

Lemma cosJ_trig_of_range (az_t el_t az_r el_r : R) :
  -1 <= cosJ_trig_of az_t el_t az_r el_r <= 1.
Proof.
  rewrite <- dot_azel_raw. apply unit_dot_range; apply azel_raw_norm.
Qed.

Lemma J_of_acos (az_t el_t az_r el_r : R) :
  J_of az_t el_t az_r el_r = Some (acos (cosJ_trig_of az_t el_t az_r el_r)).
Proof.
  rewrite J_of_raw, angle_between_unit by apply azel_raw_norm.
  now rewrite dot_azel_raw.
Qed.

(** X11: at elevation PI/2 the encoder returns the Up axis whatever the
    azimuth, and at elevation -PI/2 its opposite. *)
Theorem encoder_at_poles (az : R) :
  azel_to_vec az (PI / 2) = Some (Vec3 0 0 1)
  /\ azel_to_vec az (- (PI / 2)) = Some (Vec3 0 0 (-1)).
Proof.
  rewrite !azel_to_vec_raw. unfold azel_raw; cbv zeta.
  rewrite cos_neg, sin_neg, cos_PI2, sin_PI2.
  split; do 2 f_equal; ring.
Qed.

(** ** The wireframe of the unit sphere (lines 61-64) *)

Lemma seq_nth_error (n s i : nat) :
  (i < n)%nat -> nth_error (seq s n) i = Some (s + i)%nat.
Proof.
  revert s i. induction n as [ | n IH ]; intros s i Hi; [ lia | ].
  destruct i as [ | i ]; simpl.
  - f_equal. lia.
  - rewrite IH by lia. f_equal. lia.
Qed.

Lemma linspace_nth_error (start stop : R) (num i : nat) :
  (i < num)%nat ->
  nth_error (np.linspace start stop num) i
  = Some (start + INR i * ((stop - start) / INR (num - 1))).
Proof.
  intros Hi. unfold np.linspace.
  rewrite nth_error_map, (seq_nth_error num 0 i Hi). reflexivity.
Qed.

Lemma linspace_out_of_range (start stop : R) (num i : nat) :
  (num <= i)%nat -> nth_error (np.linspace start stop num) i = None.
Proof.
  intros Hi. apply nth_error_None. unfold np.linspace.
  now rewrite length_map, length_seq.
Qed.

Lemma grid_at_outer (a b : list R) (i j : nat) (x y : R) :
  nth_error a i = Some x -> nth_error b j = Some y ->
  grid_at (np.outer a b) i j = Some (x * y).
Proof.
  intros Ha Hb. unfold grid_at, np.outer.
  rewrite nth_error_map, Ha. simpl. now rewrite nth_error_map, Hb.
Qed.

Lemma sphere_u_nth (i : nat) :
  (i < 60)%nat -> nth_error sphere.u i = Some (INR i * (2 * PI / 59)).
Proof.
  intros Hi. unfold sphere.u. rewrite linspace_nth_error by exact Hi.
  f_equal. change (60 - 1)%nat with 59%nat.
  replace (INR 59) with 59 by (rewrite INR_IZR_INZ; reflexivity). field.
Qed.

Lemma sphere_v_nth (j : nat) :
  (j < 30)%nat -> nth_error sphere.v j = Some (INR j * (PI / 29)).
Proof.
  intros Hj. unfold sphere.v. rewrite linspace_nth_error by exact Hj.
  f_equal. change (30 - 1)%nat with 29%nat.
  replace (INR 29) with 29 by (rewrite INR_IZR_INZ; reflexivity). field.
Qed.

Lemma sphere_vertex (i j : nat) :
  (i < 60)%nat -> (j < 30)%nat ->
  let lon := INR i * (2 * PI / 59) in
  let colat := INR j * (PI / 29) in
  grid_at sphere.xs i j = Some (cos lon * sin colat)
  /\ grid_at sphere.ys i j = Some (sin lon * sin colat)
  /\ grid_at sphere.zs i j = Some (1 * cos colat).
Proof.
  intros Hi Hj. cbv zeta.
  pose proof (sphere_u_nth i Hi) as Hu. pose proof (sphere_v_nth j Hj) as Hv.
  unfold sphere.xs, sphere.ys, sphere.zs, np.ones_like.
  repeat split; apply grid_at_outer;
    rewrite nth_error_map; try rewrite Hu; try rewrite Hv; reflexivity.
Qed.

(** X15: the wireframe has a vertex for every pair of indices i < 60 and
    j < 30; it is the point of longitude 2 PI i / 59 and colatitude
    PI j / 29, and it lies on the unit sphere. *)
Theorem wireframe_vertex_on_sphere (i j : nat) :
  (i < 60)%nat -> (j < 30)%nat ->
  exists x y z,
    grid_at sphere.xs i j = Some x
    /\ grid_at sphere.ys i j = Some y
    /\ grid_at sphere.zs i j = Some z
    /\ x = cos (INR i * (2 * PI / 59)) * sin (INR j * (PI / 29))
    /\ y = sin (INR i * (2 * PI / 59)) * sin (INR j * (PI / 29))
    /\ z = cos (INR j * (PI / 29))
    /\ x * x + y * y + z * z = 1.
Proof.
  intros Hi Hj. destruct (sphere_vertex i j Hi Hj) as (Hx & Hy & Hz).
  do 3 eexists. split; [ exact Hx | ]. split; [ exact Hy | ].
  split; [ exact Hz | ].
  repeat split; try ring.
  pose proof (sin2_cos2_mult (INR i * (2 * PI / 59))).
  pose proof (sin2_cos2_mult (INR j * (PI / 29))). nra.
Qed.

Lemma wireframe_vertex_on_sphere_witness :
  exists x y z,
    grid_at sphere.xs 7 3 = Some x
    /\ grid_at sphere.ys 7 3 = Some y
    /\ grid_at sphere.zs 7 3 = Some z
    /\ x = cos (INR 7 * (2 * PI / 59)) * sin (INR 3 * (PI / 29))
    /\ y = sin (INR 7 * (2 * PI / 59)) * sin (INR 3 * (PI / 29))
    /\ z = cos (INR 3 * (PI / 29))
    /\ x * x + y * y + z * z = 1.
Proof.
  apply (wireframe_vertex_on_sphere 7 3); lia.
Defined.

(** X16: the wireframe closes on itself: the first and the last meridian
    (rows 0 and 59, longitudes 0 and 2 PI) hold the same points. *)
Theorem wireframe_seam_closes (j : nat) :
  grid_at sphere.xs 0 j = grid_at sphere.xs 59 j
  /\ grid_at sphere.ys 0 j = grid_at sphere.ys 59 j
  /\ grid_at sphere.zs 0 j = grid_at sphere.zs 59 j.
Proof.
  destruct (Nat.lt_ge_cases j 30) as [Hj | Hj].
  - destruct (sphere_vertex 0 j ltac:(lia) Hj) as (Hx0 & Hy0 & Hz0).
    destruct (sphere_vertex 59 j ltac:(lia) Hj) as (Hx1 & Hy1 & Hz1).
    rewrite Hx0, Hy0, Hz0, Hx1, Hy1, Hz1.
    replace (INR 59) with 59 by (rewrite INR_IZR_INZ; reflexivity).
    replace (INR 0) with 0 by reflexivity.
    replace (59 * (2 * PI / 59)) with (2 * PI) by field.
    replace (0 * (2 * PI / 59)) with 0 by field.
    now rewrite cos_2PI, sin_2PI, cos_0, sin_0.
  - assert (Hrow : forall a b i, grid_at (np.outer a (map b sphere.v)) i j
                                 = None).
    { intros a b i. unfold grid_at, np.outer. rewrite nth_error_map.
      destruct (nth_error a i); cbn [bind option_map]; [ | reflexivity ].
      rewrite !nth_error_map. unfold sphere.v.
      now rewrite linspace_out_of_range. }
    unfold sphere.xs, sphere.ys, sphere.zs. now rewrite !Hrow.
Qed.

(** X17: every meridian of the wireframe starts at the Up pole (0, 0, 1)
    and ends at the opposite pole (0, 0, -1). *)
Theorem wireframe_poles (i : nat) :
  (i < 60)%nat ->
  (grid_at sphere.xs i 0 = Some 0 /\ grid_at sphere.ys i 0 = Some 0
   /\ grid_at sphere.zs i 0 = Some 1)
  /\ (grid_at sphere.xs i 29 = Some 0 /\ grid_at sphere.ys i 29 = Some 0
      /\ grid_at sphere.zs i 29 = Some (-1)).
Proof.
  intros Hi.
  destruct (sphere_vertex i 0 Hi ltac:(lia)) as (Hx0 & Hy0 & Hz0).
  destruct (sphere_vertex i 29 Hi ltac:(lia)) as (Hx1 & Hy1 & Hz1).
  rewrite Hx0, Hy0, Hz0, Hx1, Hy1, Hz1.
  replace (INR 29) with 29 by (rewrite INR_IZR_INZ; reflexivity).
  replace (INR 0) with 0 by reflexivity.
  replace (29 * (PI / 29)) with PI by field.
  replace (0 * (PI / 29)) with 0 by field.
  rewrite cos_PI, sin_PI, cos_0, sin_0.
  repeat split; f_equal; ring.
Qed.

Lemma wireframe_poles_witness :
  (grid_at sphere.xs 5 0 = Some 0 /\ grid_at sphere.ys 5 0 = Some 0
   /\ grid_at sphere.zs 5 0 = Some 1)
  /\ (grid_at sphere.xs 5 29 = Some 0 /\ grid_at sphere.ys 5 29 = Some 0
      /\ grid_at sphere.zs 5 29 = Some (-1)).
Proof.
  apply (wireframe_poles 5); lia.
Defined.

(** ** The figure and the limits of the axes (lines 65-87) *)

Lemma product_in_unit (x y : R) :
  -1 <= x <= 1 -> -1 <= y <= 1 -> -1 <= x * y <= 1.
Proof. intros Hx Hy. split; nra. Qed.

Lemma Forall_map_unit (f : R -> R) (l : list R) :
  (forall a, -1 <= f a <= 1) -> Forall (fun x => -1 <= x <= 1) (map f l).
Proof. intros Hf. apply Forall_map, Forall_forall. intros a _. apply Hf. Qed.

Lemma Forall_outer_unit (a b : list R) :
  Forall (fun x => -1 <= x <= 1) a -> Forall (fun x => -1 <= x <= 1) b ->
  Forall (fun x => -1 <= x <= 1) (concat (np.outer a b)).
Proof.
  intros Ha Hb. apply Forall_concat. unfold np.outer.
  apply Forall_map. apply Forall_impl with (2 := Ha). intros x Hx.
  apply Forall_map. apply Forall_impl with (2 := Hb). intros y Hy.
  now apply product_in_unit.
Qed.

Lemma Forall_points_unit (X Y Z : list R) :
  Forall (fun x => -1 <= x <= 1) X -> Forall (fun x => -1 <= x <= 1) Y ->
  Forall (fun x => -1 <= x <= 1) Z ->
  Forall in_limits
    (map (fun p => Vec3 (fst (fst p)) (snd (fst p)) (snd p))
         (combine (combine X Y) Z)).
Proof.
  intros HX HY HZ. apply Forall_map, Forall_forall.
  intros [[x y] z] Hin.
  pose proof (in_combine_l _ _ _ _ Hin) as Hxy.
  pose proof (in_combine_r _ _ _ _ Hin) as Hz.
  pose proof (in_combine_l _ _ _ _ Hxy) as Hx.
  pose proof (in_combine_r _ _ _ _ Hxy) as Hy.
  rewrite Forall_forall in HX, HY, HZ.
  specialize (HX x Hx). specialize (HY y Hy). specialize (HZ z Hz).
  unfold in_limits, xlim, ylim, zlim; simpl. lra.
Qed.

Lemma wireframe_in_limits (lw al : R) :
  Forall in_limits
    (points (plot_wireframe sphere.xs sphere.ys sphere.zs lw al)).
Proof.
  cbn [points]. unfold sphere.xs, sphere.ys, sphere.zs.
  apply Forall_points_unit; apply Forall_outer_unit;
    try (apply Forall_map_unit; first [ exact COS_bound | exact SIN_bound ]).
  unfold np.ones_like. apply Forall_map_unit. intros _. lra.
Qed.

Lemma azel_raw_components (az el : R) :
  -1 <= vx (azel_raw az el) <= 1
  /\ -1 <= vy (azel_raw az el) <= 1
  /\ -1 <= vz (azel_raw az el) <= 1.
Proof.
  simpl. pose proof (COS_bound el). pose proof (COS_bound az).
  pose proof (SIN_bound el). pose proof (SIN_bound az).
  repeat split; try lra; apply product_in_unit; assumption.
Qed.

(** X18: whatever the four input angles, the figure is drawn, and every
    vertex of the wireframe and of the three axis lines, the tail and the
    tip of both arrows and the anchor of every label lie inside the limits
    set for the three axes. *)
Theorem figure_within_limits (az_t el_t az_r el_r : R) :
  exists scene,
    figure_of az_t el_t az_r el_r = Some scene
    /\ Forall (fun a => Forall in_limits (points a)) scene.
Proof.
  exists (draw (azel_raw az_r el_r) (azel_raw az_t el_t)).
  split.
  { unfold figure_of. rewrite !azel_to_vec_raw. reflexivity. }
  destruct (azel_raw_components az_r el_r) as (Hrx & Hry & Hrz).
  destruct (azel_raw_components az_t el_t) as (Htx & Hty & Htz).
  unfold draw.
  apply Forall_cons; [ apply wireframe_in_limits | ].
  repeat lazymatch goal with
    | |- Forall _ (_ :: _) =>
        apply Forall_cons;
        [ cbn [points map combine fst snd];
          repeat lazymatch goal with
            | |- Forall in_limits (_ :: _) =>
                apply Forall_cons;
                [ unfold in_limits, xlim, ylim, zlim, L;
                  cbn [fst snd vx vy vz]; lra | ]
            | |- Forall in_limits nil => apply Forall_nil
            end
        | ]
    | |- Forall _ nil => apply Forall_nil
    end.
Qed.

(** * Rounded inputs and rounded dot products *)

(** ** Bounds on the cosine near 0 *)

Lemma cos_approx_1 (a : R) : cos_approx a 1 = 1 - a^2/2.
Proof.
  taylor_sum cos_approx cos_term.
  rewrite (fact_INR 0 1), (fact_INR 2 2) by (vm_compute; reflexivity).
  field.
Qed.

Lemma cos_approx_2 (a : R) : cos_approx a 2 = 1 - a^2/2 + a^4/24.
Proof.
  taylor_sum cos_approx cos_term.
  rewrite (fact_INR 0 1), (fact_INR 2 2), (fact_INR 4 24)
    by (vm_compute; reflexivity).
  field.
Qed.

Lemma one_minus_cos_le (x : R) : 1 - cos x <= x * x / 2.
Proof.
  destruct (Rle_dec (x * x) 4) as [Hs | Hl].
  - assert (Hx : -2 <= x <= 2) by (split; nra).
    destruct (pre_cos_bound x 0) as [Hlo _]; [ lra | lra | ].
    change (2 * 0 + 1)%nat with 1%nat in Hlo. rewrite cos_approx_1 in Hlo.
    lra.
  - pose proof (COS_bound x). lra.
Qed.

Lemma cos_le_quartic (x : R) :
  -2 <= x <= 2 -> cos x <= 1 - x * x / 2 + x * x * x * x / 24.
Proof.
  intros Hx. destruct (pre_cos_bound x 0) as [_ Hhi]; [ lra | lra | ].
  change (2 * (0 + 1))%nat with 2%nat in Hhi. rewrite cos_approx_2 in Hhi.
  lra.
Qed.

(** The tolerance of one millionth of a radian, as a bound on cosines. *)
Lemma cos_micro : cos (1 / 1000000) <= 1 - 499 / 1000000000000000.
Proof.
  pose proof (cos_le_quartic (1 / 1000000) ltac:(lra)). lra.
Qed.

(** ** The sine and the cosine change no faster than their argument *)

Lemma chord_sq (a b : R) :
  (cos a - cos b) * (cos a - cos b) + (sin a - sin b) * (sin a - sin b)
  = 2 * (1 - cos (a - b)).
Proof.
  rewrite cos_minus.
  pose proof (sin2_cos2_mult a). pose proof (sin2_cos2_mult b). nra.
Qed.

Lemma square_le_abs (x y : R) : 0 <= y -> x * x <= y * y -> Rabs x <= y.
Proof.
  intros Hy Hxy. unfold Rabs. destruct (Rcase_abs x); nra.
Qed.

Lemma cos_lipschitz (a b : R) : Rabs (cos a - cos b) <= Rabs (a - b).
Proof.
  apply square_le_abs; [ apply Rabs_pos | ].
  pose proof (chord_sq a b) as Hc.
  pose proof (one_minus_cos_le (a - b)) as Hq.
  replace (Rabs (a - b) * Rabs (a - b)) with ((a - b) * (a - b))
    by (unfold Rabs; destruct (Rcase_abs (a - b)); ring).
  pose proof (Rle_0_sqr (sin a - sin b)) as Hs. unfold Rsqr in Hs. lra.
Qed.

Lemma sin_lipschitz (a b : R) : Rabs (sin a - sin b) <= Rabs (a - b).
Proof.
  apply square_le_abs; [ apply Rabs_pos | ].
  pose proof (chord_sq a b) as Hc.
  pose proof (one_minus_cos_le (a - b)) as Hq.
  replace (Rabs (a - b) * Rabs (a - b)) with ((a - b) * (a - b))
    by (unfold Rabs; destruct (Rcase_abs (a - b)); ring).
  pose proof (Rle_0_sqr (cos a - cos b)) as Hs. unfold Rsqr in Hs. lra.
Qed.

(** ** The inverse cosine under a small change of its argument *)

Lemma acos_at_least (c a : R) :
  -1 <= c <= 1 -> 0 <= a <= PI -> c <= cos a -> a <= acos c.
Proof.
  intros Hc Ha Hle.
  destruct (Rle_dec a (acos c)) as [ | Hn ]; [ assumption | exfalso ].
  pose proof (acos_bound c) as Hb.
  assert (Hlt : cos a < cos (acos c)) by (apply cos_decreasing_1; lra).
  rewrite cos_acos in Hlt by assumption. lra.
Qed.

Lemma cos_step (t tau : R) :
  0 <= t -> 0 <= tau -> t + tau <= PI ->
  1 - cos tau <= cos t - cos (t + tau).
Proof.
  intros Ht Htau Hsum.
  assert (Hid : cos t - cos (t + tau) - (1 - cos tau)
                = 4 * sin (t / 2) * sin (tau / 2) * cos ((t + tau) / 2)).
  { replace (cos t) with (cos (2 * (t / 2))) by (f_equal; field).
    replace (cos tau) with (cos (2 * (tau / 2))) by (f_equal; field).
    replace (cos (t + tau)) with (cos (2 * (t / 2 + tau / 2)))
      by (f_equal; field).
    replace ((t + tau) / 2) with (t / 2 + tau / 2) by field.
    rewrite !cos_2a, !cos_plus, !sin_plus.
    pose proof (sin2_cos2_mult (t / 2)) as H1.
    pose proof (sin2_cos2_mult (tau / 2)) as H2.
    set (s1 := sin (t / 2)) in *. set (c1 := cos (t / 2)) in *.
    set (s2 := sin (tau / 2)) in *. set (c2 := cos (tau / 2)) in *.
    apply Rminus_diag_uniq.
    match goal with
    | |- ?e = 0 =>
        replace e with
          ((1 - c1 * c1 + s1 * s1) * (s2 * s2 + c2 * c2 - 1)
           + 2 * (s2 * s2) * (s1 * s1 + c1 * c1 - 1)) by ring
    end.
    rewrite H1, H2. ring. }
  assert (0 <= sin (t / 2)) by (apply sin_ge_0; lra).
  assert (0 <= sin (tau / 2)) by (apply sin_ge_0; lra).
  assert (0 <= cos ((t + tau) / 2)) by (apply cos_ge_0; lra).
  assert (0 <= 4 * sin (t / 2) * sin (tau / 2) * cos ((t + tau) / 2)).
  { repeat apply Rmult_le_pos; lra. }
  lra.
Qed.

Lemma acos_stable_one_side (c0 c tau : R) :
  -1 <= c0 <= 1 -> -1 <= c <= 1 -> 0 <= tau <= PI ->
  c0 - c <= 1 - cos tau -> acos c - acos c0 <= tau.
Proof.
  intros Hc0 Hc Htau Hd.
  pose proof (acos_bound c0) as Hb0. pose proof (acos_bound c) as Hb.
  destruct (Rle_dec (acos c - acos c0) tau) as [ | Hn ];
    [ assumption | exfalso ].
  assert (Hsum : acos c0 + tau <= PI) by lra.
  pose proof (cos_step (acos c0) tau ltac:(lra) ltac:(lra) Hsum) as Hstep.
  assert (Hlt : cos (acos c) < cos (acos c0 + tau))
    by (apply cos_decreasing_1; lra).
  rewrite (cos_acos c Hc) in Hlt. rewrite (cos_acos c0 Hc0) in Hstep. lra.
Qed.

Lemma acos_stable (c0 c tau : R) :
  -1 <= c0 <= 1 -> -1 <= c <= 1 -> 0 <= tau <= PI ->
  Rabs (c - c0) <= 1 - cos tau -> Rabs (acos c - acos c0) <= tau.
Proof.
  intros Hc0 Hc Htau Hd.
  assert (H1 : c0 - c <= 1 - cos tau)
    by (revert Hd; unfold Rabs; destruct (Rcase_abs (c - c0)); lra).
  assert (H2 : c - c0 <= 1 - cos tau)
    by (revert Hd; unfold Rabs; destruct (Rcase_abs (c - c0)); lra).
  pose proof (acos_stable_one_side c0 c tau Hc0 Hc Htau H1).
  pose proof (acos_stable_one_side c c0 tau Hc Hc0 Htau H2).
  unfold Rabs. destruct (Rcase_abs (acos c - acos c0)); lra.
Qed.

Lemma clip_nonexpansive (c c0 : R) :
  -1 <= c0 <= 1 -> Rabs (np.clip c (-1) 1 - c0) <= Rabs (c - c0).
Proof.
  intros Hc0. unfold np.clip, Rmin, Rmax, Rabs.
  destruct (Rle_dec c (-1)); destruct (Rle_dec _ 1);
    repeat destruct (Rcase_abs _); lra.
Qed.

(** The last two steps of [angle_between] on a computed dot product [c]
    that is close to an exact one [c0]. *)
Lemma arccos_clip_stable (c0 c tau : R) :
  -1 <= c0 <= 1 -> 0 <= tau <= PI -> Rabs (c - c0) <= 1 - cos tau ->
  exists a, np.arccos (np.clip c (-1) 1) = Some a
            /\ Rabs (a - acos c0) <= tau.
Proof.
  intros Hc0 Htau Hd. rewrite arccos_clip. eexists; split; [ reflexivity | ].
  apply acos_stable; try assumption; [ apply clip_range | ].
  pose proof (clip_nonexpansive c c0 Hc0). lra.
Qed.

Lemma arccos_clip_micro (c0 c : R) :
  -1 <= c0 <= 1 -> Rabs (c - c0) <= 4 / 10000000000000 ->
  exists a, np.arccos (np.clip c (-1) 1) = Some a
            /\ Rabs (a - acos c0) <= 1 / 1000000.
Proof.
  intros Hc0 Hd. pose proof PI_RGT_0. pose proof PI2_1.
  apply arccos_clip_stable; [ assumption | lra | ].
  pose proof cos_micro. lra.
Qed.

Lemma clip_nonexpansive2 (c c0 : R) :
  Rabs (np.clip c (-1) 1 - np.clip c0 (-1) 1) <= Rabs (c - c0).
Proof.
  unfold np.clip, Rmin, Rmax, Rabs.
  destruct (Rle_dec c (-1)); destruct (Rle_dec c0 (-1));
    repeat destruct (Rle_dec _ 1); repeat destruct (Rcase_abs _); lra.
Qed.

Lemma cos_PI_minus (x : R) : cos (PI - x) = - cos x.
Proof.
  replace (PI - x) with (- x + PI) by ring. now rewrite neg_cos, cos_neg.
Qed.

Lemma cos_2PI_minus (x : R) : cos (2 * PI - x) = cos x.
Proof. rewrite cos_minus, cos_2PI, sin_2PI. ring. Qed.

Lemma norm_sq (v : vec3) :
  np.linalg_norm v * np.linalg_norm v = np.dot v v.
Proof.
  unfold np.linalg_norm. rewrite dot_self. apply sqrt_sqrt.
  pose proof (Rle_0_sqr (vx v)). pose proof (Rle_0_sqr (vy v)).
  pose proof (Rle_0_sqr (vz v)). unfold Rsqr in *. lra.
Qed.

Lemma norm_nonneg (v : vec3) : 0 <= np.linalg_norm v.
Proof. unfold np.linalg_norm. apply sqrt_pos. Qed.

(** A vector whose squared length is within [eps] of 1 has a norm within
    [eps] of 1. *)
Lemma norm_close_to_one (v : vec3) (eps : R) :
  Rabs (np.dot v v - 1) <= eps -> Rabs (np.linalg_norm v - 1) <= eps.
Proof.
  rewrite <- norm_sq. pose proof (norm_nonneg v) as Hn.
  set (n := np.linalg_norm v) in *. unfold Rabs.
  destruct (Rcase_abs (n * n - 1)); destruct (Rcase_abs (n - 1)); nra.
Qed.

(** The encoder moves by no more than its azimuth does. *)
Lemma azel_raw_azimuth_close (az az' el : R) :
  Rabs (vx (azel_raw az' el) - vx (azel_raw az el)) <= Rabs (az' - az)
  /\ Rabs (vy (azel_raw az' el) - vy (azel_raw az el)) <= Rabs (az' - az)
  /\ vz (azel_raw az' el) = vz (azel_raw az el).
Proof.
  simpl. pose proof (COS_bound el) as Hce.
  pose proof (cos_lipschitz az' az) as Hc.
  pose proof (sin_lipschitz az' az) as Hs.
  assert (Hscale : forall d, Rabs (cos el * d) <= Rabs d).
  { intros d. rewrite Rabs_mult.
    assert (Rabs (cos el) <= 1) by (unfold Rabs; destruct (Rcase_abs _); lra).
    pose proof (Rabs_pos d). nra. }
  repeat split.
  - replace (cos el * cos az' - cos el * cos az)
      with (cos el * (cos az' - cos az)) by ring.
    eapply Rle_trans; [ apply Hscale | exact Hc ].
  - replace (cos el * sin az' - cos el * sin az)
      with (cos el * (sin az' - sin az)) by ring.
    eapply Rle_trans; [ apply Hscale | exact Hs ].
Qed.

(** ** C9: a vector paired with itself *)

(** C9: for every vector [v] whose Euclidean norm is 1 up to 1e-13 (every
    unit vector, and every vector of doubles that is one up to rounding),
    the calculator applied to [v] and [v] returns an angle between 0 and
    1e-6; the same holds when the dot product is itself computed with an
    error up to 1e-13. *)
Theorem C9_calculator_self_zero (v : vec3) :
  Rabs (np.linalg_norm v - 1) <= 1 / 10000000000000 ->
  (exists a0, angle_between v v = Some a0 /\ 0 <= a0 <= 1 / 1000000)
  /\ (forall c, Rabs (c - np.dot v v) <= 1 / 10000000000000 ->
      exists a, np.arccos (np.clip c (-1) 1) = Some a
                /\ 0 <= a <= 1 / 1000000).
Proof.
  intros Hn.
  assert (Hd : 1 - 2 / 10000000000000 <= np.dot v v).
  { rewrite <- norm_sq. pose proof (norm_nonneg v).
    revert Hn. set (n := np.linalg_norm v) in *. unfold Rabs.
    destruct (Rcase_abs (n - 1)); intros; nra. }
  assert (Hall : forall c, Rabs (c - np.dot v v) <= 1 / 10000000000000 ->
                 exists a, np.arccos (np.clip c (-1) 1) = Some a
                           /\ 0 <= a <= 1 / 1000000).
  { intros c Hc. rewrite arccos_clip. eexists; split; [ reflexivity | ].
    pose proof (clip_range c) as Hr.
    pose proof (acos_bound (np.clip c (-1) 1)) as Hb.
    split; [ lra | ].
    pose proof PI2_1. pose proof cos_micro as Hm.
    apply acos_at_most; [ exact Hr | lra | ].
    assert (Hlow : 1 - 3 / 10000000000000 <= c)
      by (revert Hc; unfold Rabs; destruct (Rcase_abs _); lra).
    unfold np.clip, Rmin, Rmax.
    destruct (Rle_dec c (-1)); destruct (Rle_dec _ 1); lra. }
  split; [ | exact Hall ].
  apply (Hall (np.dot v v)).
  replace (np.dot v v - np.dot v v) with 0 by ring. rewrite Rabs_R0. lra.
Qed.

(** The witness is the target vector of the script as doubles,
    (0.6942720440148838, 0.5825634160695853, 0.42261826174069944); its
    squared length is 1 - 1.06e-16. *)
Lemma C9_calculator_self_zero_witness :
  let v := Vec3 (6253446637438367 / 9007199254740992)
                (5247264767061335 / 9007199254740992)
                (7613213784381523 / 18014398509481984) in
  (exists a0, angle_between v v = Some a0 /\ 0 <= a0 <= 1 / 1000000)
  /\ (forall c, Rabs (c - np.dot v v) <= 1 / 10000000000000 ->
      exists a, np.arccos (np.clip c (-1) 1) = Some a
                /\ 0 <= a <= 1 / 1000000).
Proof.
  cbv zeta. apply C9_calculator_self_zero.
  apply norm_close_to_one. unfold np.dot; cbn [vx vy vz].
  unfold Rabs. destruct (Rcase_abs _); lra.
Defined.

(** ** C7: the antipodal direction *)

Lemma dot_antipodal (az el s : R) :
  np.dot (azel_raw az el) (azel_raw s (- el))
  = -1 + cos el * cos el * (1 - cos (s - (az + PI))).
Proof.
  rewrite dot_azel_raw. unfold cosJ_trig_of.
  rewrite sin_neg, cos_neg.
  replace (az - s) with (- (s - (az + PI) + PI)) by ring.
  rewrite cos_neg, neg_cos.
  pose proof (sin2_cos2_mult el). nra.
Qed.

(** C7, as stated for every azimuth, fails on doubles: at az = 2^53 and
    el = 0 the sum az + np.pi is rounded to 2^53 + 4, and the calculator
    returns 2 PI - 4, about 2.28, which is more than half a radian away
    from PI. *)
Lemma C7_fails_for_large_azimuth :
  ~ (forall (az el : float) (x e s ne : R),
        double_to_R az = Some x -> double_to_R el = Some e ->
        double_to_R (PrimFloat.add az np.pi) = Some s ->
        double_to_R (PrimFloat.opp el) = Some ne ->
        exists a, J_of x e s ne = Some a /\ Rabs (a - PI) <= 1 / 2).
Proof.
  intros H.
  destruct (H 9007199254740992%float 0%float
              9007199254740992 0 (9007199254740992 + 4) 0)
    as (a & Ha & Hclose).
  - unfold double_to_R.
    replace (Prim2SF 9007199254740992%float)
      with (S754_finite false 4503599627370496 1)
      by (vm_compute; reflexivity).
    f_equal. simpl. lra.
  - unfold double_to_R.
    replace (Prim2SF 0%float) with (S754_zero false)
      by (vm_compute; reflexivity).
    reflexivity.
  - unfold double_to_R.
    replace (Prim2SF (PrimFloat.add 9007199254740992%float np.pi))
      with (S754_finite false 4503599627370498 1)
      by (vm_compute; reflexivity).
    f_equal. simpl. lra.
  - unfold double_to_R.
    replace (Prim2SF (PrimFloat.opp 0%float)) with (S754_zero true)
      by (vm_compute; reflexivity).
    reflexivity.
  - rewrite J_of_acos in Ha. injection Ha as Ha.
    unfold cosJ_trig_of in Ha. rewrite sin_0, cos_0 in Ha.
    replace (9007199254740992 - (9007199254740992 + 4)) with (- (4))
      in Ha by ring.
    rewrite cos_neg in Ha.
    replace (0 * 0 + 1 * 1 * cos 4) with (cos (2 * PI - 4)) in Ha
      by (rewrite cos_2PI_minus; ring).
    pose proof PI_bounds as Hpi.
    rewrite acos_cos in Ha by lra.
    subst a. revert Hclose. unfold Rabs.
    destruct (Rcase_abs _); lra.
Qed.

(** C7, amended: when the azimuth handed to the encoder for the opposite
    direction is within 5e-7 of az + PI (as the doubles sum az + np.pi is
    for azimuths up to about 1e9), the two encoded vectors are opposite up
    to that distance in each component, and the calculator returns an angle
    between PI - 1e-6 and PI, also when the dot product is computed with
    an error up to 1e-13. *)
Theorem C7_antipodal_angle_is_pi (az el s : R) :
  Rabs (s - (az + PI)) <= 5 / 10000000 ->
  exists v w,
    azel_to_vec az el = Some v
    /\ azel_to_vec s (- el) = Some w
    /\ (Rabs (vx w + vx v) <= Rabs (s - (az + PI))
        /\ Rabs (vy w + vy v) <= Rabs (s - (az + PI))
        /\ vz w + vz v = 0)
    /\ (exists a0, angle_between v w = Some a0
                   /\ PI - 1 / 1000000 <= a0 <= PI)
    /\ (forall c, Rabs (c - np.dot v w) <= 1 / 10000000000000 ->
        exists a, np.arccos (np.clip c (-1) 1) = Some a
                  /\ PI - 1 / 1000000 <= a <= PI).
Proof.
  intros Hs.
  exists (azel_raw az el), (azel_raw s (- el)).
  split; [ apply azel_to_vec_raw | ].
  split; [ apply azel_to_vec_raw | ].
  split.
  { destruct (azel_raw_azimuth_close (az + PI) s (- el)) as (Hx & Hy & _).
    simpl in Hx, Hy. simpl.
    rewrite neg_cos, cos_neg in Hx. rewrite neg_sin, cos_neg in Hy.
    rewrite cos_neg, sin_neg.
    replace (cos el * cos s + cos el * cos az)
      with (cos el * cos s - cos el * - cos az) by ring.
    replace (cos el * sin s + cos el * sin az)
      with (cos el * sin s - cos el * - sin az) by ring.
    repeat split; [ exact Hx | exact Hy | ring ]. }
  assert (Hdot : -1 <= np.dot (azel_raw az el) (azel_raw s (- el))
                 <= -1 + 2 / 10000000000000).
  { rewrite dot_antipodal.
    pose proof (one_minus_cos_le (s - (az + PI))) as Hq.
    pose proof (COS_bound (s - (az + PI))) as Hcb.
    pose proof (COS_bound el) as Hce.
    assert (Hsq : (s - (az + PI)) * (s - (az + PI))
                  <= 25 / 100000000000000).
    { revert Hs. unfold Rabs. destruct (Rcase_abs _); intros; nra. }
    assert (0 <= cos el * cos el <= 1) by nra.
    split; nra. }
  assert (Hall : forall c,
             Rabs (c - np.dot (azel_raw az el) (azel_raw s (- el)))
             <= 1 / 10000000000000 ->
             exists a, np.arccos (np.clip c (-1) 1) = Some a
                       /\ PI - 1 / 1000000 <= a <= PI).
  { intros c Hc. rewrite arccos_clip. eexists; split; [ reflexivity | ].
    pose proof (clip_range c) as Hr.
    pose proof (acos_bound (np.clip c (-1) 1)) as Hb.
    split; [ | lra ].
    pose proof PI_bounds as Hpi. pose proof cos_micro as Hm.
    apply acos_at_least; [ exact Hr | lra | ].
    rewrite cos_PI_minus.
    assert (Hup : c <= -1 + 3 / 10000000000000)
      by (revert Hc; unfold Rabs; destruct (Rcase_abs _); lra).
    unfold np.clip, Rmin, Rmax.
    destruct (Rle_dec c (-1)); destruct (Rle_dec _ 1); lra. }
  split; [ | exact Hall ].
  apply (Hall (np.dot (azel_raw az el) (azel_raw s (- el)))).
  replace (_ - _) with 0 by ring. rewrite Rabs_R0. lra.
Qed.

Lemma double_sum_1000_pi :
  double_to_R (PrimFloat.add 1000%float np.pi)
  = Some (8823726763426861 / 8796093022208).
Proof.
  unfold double_to_R.
  replace (Prim2SF (PrimFloat.add 1000%float np.pi))
    with (S754_finite false 8823726763426861 (-43))
    by (vm_compute; reflexivity).
  f_equal. simpl. field.
Qed.

(** The witness takes az = 1000 and el = 1/2, and for the second azimuth
    the doubles sum 1000 + np.pi = 1003.1415926535898. *)
Lemma C7_antipodal_angle_is_pi_witness :
  double_to_R (PrimFloat.add 1000%float np.pi)
  = Some (8823726763426861 / 8796093022208)
  /\ exists v w,
       azel_to_vec 1000 (1 / 2) = Some v
       /\ azel_to_vec (8823726763426861 / 8796093022208) (- (1 / 2))
          = Some w
       /\ (Rabs (vx w + vx v)
           <= Rabs (8823726763426861 / 8796093022208 - (1000 + PI))
           /\ Rabs (vy w + vy v)
              <= Rabs (8823726763426861 / 8796093022208 - (1000 + PI))
           /\ vz w + vz v = 0)
       /\ (exists a0, angle_between v w = Some a0
                      /\ PI - 1 / 1000000 <= a0 <= PI)
       /\ (forall c, Rabs (c - np.dot v w) <= 1 / 10000000000000 ->
           exists a, np.arccos (np.clip c (-1) 1) = Some a
                     /\ PI - 1 / 1000000 <= a <= PI).
Proof.
  split; [ exact double_sum_1000_pi | ].
  apply (C7_antipodal_angle_is_pi 1000 (1 / 2)
           (8823726763426861 / 8796093022208)).
  pose proof PI_bounds. unfold Rabs. destruct (Rcase_abs _); lra.
Defined.

(** ** C10: a full turn in azimuth *)

Lemma cos_6_lt_1 : cos 6 < 1.
Proof.
  pose proof PI_bounds as Hpi.
  rewrite <- (cos_2PI_minus 6), <- cos_0.
  apply cos_decreasing_1; lra.
Qed.

(** C10, as stated for every azimuth, fails on doubles: at az = 2^53 and
    el = 0 the sum az + 2 * np.pi is rounded to 2^53 + 6, which is not a
    whole number of turns away from az, and the encoder returns a different
    vector. *)
Lemma C10_fails_for_large_azimuth :
  ~ (forall (az el : float) (x e s : R),
        double_to_R az = Some x -> double_to_R el = Some e ->
        double_to_R (PrimFloat.add az (PrimFloat.mul 2 np.pi)) = Some s ->
        azel_to_vec s e = azel_to_vec x e).
Proof.
  intros H.
  assert (Heq : azel_to_vec (9007199254740992 + 6) 0
                = azel_to_vec 9007199254740992 0).
  { apply (H 9007199254740992%float 0%float).
    - unfold double_to_R.
      replace (Prim2SF 9007199254740992%float)
        with (S754_finite false 4503599627370496 1)
        by (vm_compute; reflexivity).
      f_equal. simpl. lra.
    - unfold double_to_R.
      replace (Prim2SF 0%float) with (S754_zero false)
        by (vm_compute; reflexivity).
      reflexivity.
    - unfold double_to_R.
      replace (Prim2SF (PrimFloat.add 9007199254740992%float
                          (PrimFloat.mul 2 np.pi)))
        with (S754_finite false 4503599627370499 1)
        by (vm_compute; reflexivity).
      f_equal. simpl. lra. }
  rewrite !azel_to_vec_raw in Heq. unfold azel_raw in Heq; cbv zeta in Heq.
  injection Heq as Hx Hy. rewrite cos_0 in Hx, Hy.
  set (x := 9007199254740992) in *.
  assert (Hc : cos (x + 6) = cos x) by lra.
  assert (Hs : sin (x + 6) = sin x) by lra.
  pose proof cos_6_lt_1 as H6.
  replace 6 with ((x + 6) - x) in H6 at 1 by ring.
  rewrite cos_minus, Hc, Hs in H6.
  pose proof (sin2_cos2_mult x). lra.
Qed.

(** C10, amended: the encoder returns, for an azimuth [s] in place of
    az + 2 PI, a vector whose x and y components are within
    |s - (az + 2 PI)| of those for [az] and whose z component is the same;
    so the period 2 PI holds up to the rounding error of the sum
    az + 2 * np.pi, which grows with the size of az. *)
Theorem C10_encoder_azimuth_periodic (az el s : R) :
  exists v w,
    azel_to_vec az el = Some v
    /\ azel_to_vec s el = Some w
    /\ Rabs (vx w - vx v) <= Rabs (s - (az + 2 * PI))
    /\ Rabs (vy w - vy v) <= Rabs (s - (az + 2 * PI))
    /\ vz w = vz v.
Proof.
  exists (azel_raw az el), (azel_raw s el).
  split; [ apply azel_to_vec_raw | ].
  split; [ apply azel_to_vec_raw | ].
  destruct (azel_raw_azimuth_close (az + 2 * PI) s el) as (Hx & Hy & Hz).
  simpl in Hx, Hy, Hz. simpl.
  rewrite cos_plus, cos_2PI, sin_2PI in Hx.
  rewrite sin_plus, cos_2PI, sin_2PI in Hy.
  replace (cos el * (cos az * 1 - sin az * 0)) with (cos el * cos az)
    in Hx by ring.
  replace (cos el * (sin az * 1 + cos az * 0)) with (cos el * sin az)
    in Hy by ring.
  repeat split; assumption || reflexivity.
Qed.

(** * Further properties under rounding *)

(** ** The calculator (lines 28-32) *)

(** X3: the angle reacts to an error in the dot product no more than the
    inverse cosine does at its ends: if the number clamped on line 31
    differs from the exact dot product by at most 1 - cos tau, the angle
    returned differs by at most tau. *)
Theorem angle_stable_under_rounding (v1 v2 : vec3) (c tau : R) :
  0 <= tau <= PI ->
  Rabs (c - np.dot v1 v2) <= 1 - cos tau ->
  exists a0 a,
    angle_between v1 v2 = Some a0
    /\ np.arccos (np.clip c (-1) 1) = Some a
    /\ Rabs (a - a0) <= tau.
Proof.
  intros Htau Hc. unfold angle_between; cbv zeta. rewrite !arccos_clip.
  do 2 eexists. split; [ reflexivity | ]. split; [ reflexivity | ].
  apply acos_stable; try apply clip_range; [ exact Htau | ].
  pose proof (clip_nonexpansive2 c (np.dot v1 v2)). lra.
Qed.

Lemma angle_stable_under_rounding_witness :
  exists a0 a,
    angle_between (Vec3 1 0 0) (Vec3 (3 / 5) (4 / 5) 0) = Some a0
    /\ np.arccos (np.clip (3 / 5 + 1 / 10000000000000) (-1) 1) = Some a
    /\ Rabs (a - a0) <= 1 / 1000000.
Proof.
  apply (angle_stable_under_rounding
           (Vec3 1 0 0) (Vec3 (3 / 5) (4 / 5) 0)
           (3 / 5 + 1 / 10000000000000) (1 / 1000000)).
  - pose proof PI2_1. lra.
  - pose proof cos_micro. unfold np.dot; cbn [vx vy vz].
    unfold Rabs. destruct (Rcase_abs _); lra.
Defined.

(** ** Encoder and calculator together (lines 16-32 and 42-46) *)

(** X8: two directions with the same azimuth, and elevations that differ by
    at most PI, are encoded to two vectors for which the calculator returns
    the absolute difference of the elevations to within 1e-6, whenever the
    dot product it clamps is within 4e-13 of the exact one. *)
Theorem same_azimuth_separation (az el_t el_r : R) :
  - PI <= el_t - el_r <= PI ->
  exists vT vR,
    azel_to_vec az el_t = Some vT
    /\ azel_to_vec az el_r = Some vR
    /\ forall c, Rabs (c - np.dot vT vR) <= 4 / 10000000000000 ->
       exists a, np.arccos (np.clip c (-1) 1) = Some a
                 /\ Rabs (a - Rabs (el_t - el_r)) <= 1 / 1000000.
Proof.
  intros Hd. exists (azel_raw az el_t), (azel_raw az el_r).
  split; [ apply azel_to_vec_raw | ].
  split; [ apply azel_to_vec_raw | ].
  intros c Hc. rewrite <- (acos_cos_abs _ Hd).
  assert (Hdot : np.dot (azel_raw az el_t) (azel_raw az el_r)
                 = cos (el_t - el_r)).
  { rewrite dot_azel_raw. unfold cosJ_trig_of.
    replace (az - az) with 0 by ring. rewrite cos_0, cos_minus. ring. }
  rewrite Hdot in Hc.
  apply arccos_clip_micro; [ apply COS_bound | exact Hc ].
Qed.

Lemma same_azimuth_separation_witness :
  exists vT vR,
    azel_to_vec 2 1 = Some vT
    /\ azel_to_vec 2 (1 / 4) = Some vR
    /\ forall c, Rabs (c - np.dot vT vR) <= 4 / 10000000000000 ->
       exists a, np.arccos (np.clip c (-1) 1) = Some a
                 /\ Rabs (a - Rabs (1 - 1 / 4)) <= 1 / 1000000.
Proof.
  apply (same_azimuth_separation 2 1 (1 / 4)).
  pose proof PI2_1. split; lra.
Defined.

(** X9: two directions of elevation 0 whose azimuths differ by at most PI
    are encoded to two vectors for which the calculator returns the
    absolute difference of the azimuths to within 1e-6, whenever the dot
    product it clamps is within 4e-13 of the exact one. *)
Theorem horizon_separation (az_t az_r : R) :
  - PI <= az_t - az_r <= PI ->
  exists vT vR,
    azel_to_vec az_t 0 = Some vT
    /\ azel_to_vec az_r 0 = Some vR
    /\ forall c, Rabs (c - np.dot vT vR) <= 4 / 10000000000000 ->
       exists a, np.arccos (np.clip c (-1) 1) = Some a
                 /\ Rabs (a - Rabs (az_t - az_r)) <= 1 / 1000000.
Proof.
  intros Hd. exists (azel_raw az_t 0), (azel_raw az_r 0).
  split; [ apply azel_to_vec_raw | ].
  split; [ apply azel_to_vec_raw | ].
  intros c Hc. rewrite <- (acos_cos_abs _ Hd).
  assert (Hdot : np.dot (azel_raw az_t 0) (azel_raw az_r 0)
                 = cos (az_t - az_r)).
  { rewrite dot_azel_raw. unfold cosJ_trig_of. rewrite sin_0, cos_0. ring. }
  rewrite Hdot in Hc.
  apply arccos_clip_micro; [ apply COS_bound | exact Hc ].
Qed.

Lemma horizon_separation_witness :
  exists vT vR,
    azel_to_vec 3 0 = Some vT
    /\ azel_to_vec (1 / 2) 0 = Some vR
    /\ forall c, Rabs (c - np.dot vT vR) <= 4 / 10000000000000 ->
       exists a, np.arccos (np.clip c (-1) 1) = Some a
                 /\ Rabs (a - Rabs (3 - 1 / 2)) <= 1 / 1000000.
Proof.
  apply (horizon_separation 3 (1 / 2)).
  pose proof PI_bounds. split; lra.
Defined.

(** X12: for a direction of elevation [el] between -PI/2 and PI/2 and the
    Up direction (elevation PI/2, any azimuth), the calculator returns
    PI/2 - el to within 1e-6, whenever the dot product it clamps is within
    4e-13 of the exact one. *)
Theorem separation_from_zenith (az el az_up : R) :
  - (PI / 2) <= el <= PI / 2 ->
  exists v up,
    azel_to_vec az el = Some v
    /\ azel_to_vec az_up (PI / 2) = Some up
    /\ forall c, Rabs (c - np.dot v up) <= 4 / 10000000000000 ->
       exists a, np.arccos (np.clip c (-1) 1) = Some a
                 /\ Rabs (a - (PI / 2 - el)) <= 1 / 1000000.
Proof.
  intros Hel. exists (azel_raw az el), (azel_raw az_up (PI / 2)).
  split; [ apply azel_to_vec_raw | ].
  split; [ apply azel_to_vec_raw | ].
  intros c Hc. rewrite <- (acos_cos (PI / 2 - el)) by lra.
  assert (Hdot : np.dot (azel_raw az el) (azel_raw az_up (PI / 2))
                 = cos (PI / 2 - el)).
  { rewrite dot_azel_raw. unfold cosJ_trig_of.
    rewrite cos_PI2, sin_PI2, cos_shift. ring. }
  rewrite Hdot in Hc.
  apply arccos_clip_micro; [ apply COS_bound | exact Hc ].
Qed.

Lemma separation_from_zenith_witness :
  exists v up,
    azel_to_vec 2 (1 / 3) = Some v
    /\ azel_to_vec 5 (PI / 2) = Some up
    /\ forall c, Rabs (c - np.dot v up) <= 4 / 10000000000000 ->
       exists a, np.arccos (np.clip c (-1) 1) = Some a
                 /\ Rabs (a - (PI / 2 - 1 / 3)) <= 1 / 1000000.
Proof.
  apply (separation_from_zenith 2 (1 / 3) 5).
  pose proof PI2_1. split; lra.
Defined.

(** ** The exact angle is a distance between unit vectors *)

Lemma gram3_nonneg (a b c : vec3) :
  0 <= np.dot a a * np.dot b b * np.dot c c
       + 2 * (np.dot a b * np.dot b c * np.dot a c)
       - np.dot a a * (np.dot b c * np.dot b c)
       - np.dot b b * (np.dot a c * np.dot a c)
       - np.dot c c * (np.dot a b * np.dot a b).
Proof.
  destruct a as [a1 a2 a3], b as [b1 b2 b3], c as [c1 c2 c3].
  unfold np.dot; simpl.
  pose proof (Rle_0_sqr (a1 * (b2 * c3 - b3 * c2)
                         - a2 * (b1 * c3 - b3 * c1)
                         + a3 * (b1 * c2 - b2 * c1))) as Hdet.
  unfold Rsqr in Hdet.
  match goal with
  | |- 0 <= ?e =>
      replace e with
        ((a1 * (b2 * c3 - b3 * c2) - a2 * (b1 * c3 - b3 * c1)
          + a3 * (b1 * c2 - b2 * c1))
         * (a1 * (b2 * c3 - b3 * c2) - a2 * (b1 * c3 - b3 * c1)
            + a3 * (b1 * c2 - b2 * c1))) by ring
  end.
  exact Hdet.
Qed.

Lemma sin_acos_sq (p : R) :
  -1 <= p <= 1 ->
  0 <= sin (acos p) /\ sin (acos p) * sin (acos p) = 1 - p * p.
Proof.
  intros Hp. pose proof (acos_bound p) as Hb. split.
  - apply sin_ge_0; lra.
  - pose proof (sin2_cos2_mult (acos p)) as Hs.
    rewrite (cos_acos p Hp) in Hs. lra.
Qed.

Lemma acos_dot_triangle (a b c : vec3) :
  np.linalg_norm a = 1 -> np.linalg_norm b = 1 -> np.linalg_norm c = 1 ->
  acos (np.dot a c) <= acos (np.dot a b) + acos (np.dot b c).
Proof.
  intros Ha Hb Hc.
  pose proof (unit_dot_range a b Ha Hb) as Hp.
  pose proof (unit_dot_range b c Hb Hc) as Hq.
  pose proof (unit_dot_range a c Ha Hc) as Hr.
  pose proof (gram3_nonneg a b c) as Hg.
  rewrite (norm_one_dot a Ha), (norm_one_dot b Hb), (norm_one_dot c Hc)
    in Hg.
  set (p := np.dot a b) in *. set (q := np.dot b c) in *.
  set (r := np.dot a c) in *.
  pose proof (acos_bound p) as Hbp. pose proof (acos_bound q) as Hbq.
  pose proof (acos_bound r) as Hbr.
  destruct (Rle_dec PI (acos p + acos q)) as [Hbig | Hsmall]; [ lra | ].
  apply acos_at_most; [ exact Hr | lra | ].
  rewrite cos_plus, (cos_acos p Hp), (cos_acos q Hq).
  destruct (sin_acos_sq p Hp) as [Hs1 Hs1sq].
  destruct (sin_acos_sq q Hq) as [Hs2 Hs2sq].
  set (s1 := sin (acos p)) in *. set (s2 := sin (acos q)) in *.
  assert (Hprod : 0 <= s1 * s2) by (apply Rmult_le_pos; assumption).
  assert (Hsq : (r - p * q) * (r - p * q) <= (s1 * s2) * (s1 * s2)).
  { replace ((s1 * s2) * (s1 * s2)) with ((s1 * s1) * (s2 * s2)) by ring.
    rewrite Hs1sq, Hs2sq. lra. }
  pose proof (square_le_lower (r - p * q) (s1 * s2) Hprod Hsq). lra.
Qed.

(** The exact angle between two encoded directions. *)
Lemma raw_triangle (az1 el1 az2 el2 az3 el3 : R) :
  acos (np.dot (azel_raw az1 el1) (azel_raw az3 el3))
  <= acos (np.dot (azel_raw az1 el1) (azel_raw az2 el2))
     + acos (np.dot (azel_raw az2 el2) (azel_raw az3 el3)).
Proof. apply acos_dot_triangle; apply azel_raw_norm. Qed.

Lemma raw_dot_range (az1 el1 az2 el2 : R) :
  -1 <= np.dot (azel_raw az1 el1) (azel_raw az2 el2) <= 1.
Proof. apply unit_dot_range; apply azel_raw_norm. Qed.

(** X7: for any three directions, the angles the calculator returns for
    the three pairs of encoded vectors obey the triangle inequality up to
    3e-6, whenever each dot product it clamps is within 4e-13 of the exact
    one. *)
Theorem angle_triangle_inequality (az1 el1 az2 el2 az3 el3 : R) :
  exists v1 v2 v3,
    azel_to_vec az1 el1 = Some v1
    /\ azel_to_vec az2 el2 = Some v2
    /\ azel_to_vec az3 el3 = Some v3
    /\ forall c12 c23 c13,
         Rabs (c12 - np.dot v1 v2) <= 4 / 10000000000000 ->
         Rabs (c23 - np.dot v2 v3) <= 4 / 10000000000000 ->
         Rabs (c13 - np.dot v1 v3) <= 4 / 10000000000000 ->
         exists a12 a23 a13,
           np.arccos (np.clip c12 (-1) 1) = Some a12
           /\ np.arccos (np.clip c23 (-1) 1) = Some a23
           /\ np.arccos (np.clip c13 (-1) 1) = Some a13
           /\ a13 <= a12 + a23 + 3 / 1000000.
Proof.
  exists (azel_raw az1 el1), (azel_raw az2 el2), (azel_raw az3 el3).
  repeat (split; [ apply azel_to_vec_raw | ]).
  intros c12 c23 c13 H12 H23 H13.
  destruct (arccos_clip_micro _ c12 (raw_dot_range az1 el1 az2 el2) H12)
    as (a12 & E12 & B12).
  destruct (arccos_clip_micro _ c23 (raw_dot_range az2 el2 az3 el3) H23)
    as (a23 & E23 & B23).
  destruct (arccos_clip_micro _ c13 (raw_dot_range az1 el1 az3 el3) H13)
    as (a13 & E13 & B13).
  exists a12, a23, a13. repeat (split; [ assumption | ]).
  pose proof (raw_triangle az1 el1 az2 el2 az3 el3) as Ht.
  revert B12 B23 B13. unfold Rabs.
  repeat destruct (Rcase_abs _); lra.
Qed.

Lemma raw_azimuth_angle (az az' el : R) :
  - PI <= az' - az <= PI ->
  acos (np.dot (azel_raw az el) (azel_raw az' el)) <= Rabs (az' - az).
Proof.
  intros Hd.
  apply acos_at_most; [ apply raw_dot_range | | ].
  - split; [ apply Rabs_pos | ].
    unfold Rabs. destruct (Rcase_abs _); lra.
  - assert (Hcos : cos (Rabs (az' - az)) = cos (az - az')).
    { unfold Rabs. destruct (Rcase_abs _).
      - f_equal. ring.
      - rewrite <- cos_neg. f_equal. ring. }
    rewrite Hcos, dot_azel_raw. unfold cosJ_trig_of.
    pose proof (sin2_cos2_mult el). pose proof (COS_bound (az - az')).
    pose proof (Rle_0_sqr (sin el)) as Hs. unfold Rsqr in Hs. nra.
Qed.

Lemma raw_dot_shift (az_t el_t az_r el_r d : R) :
  np.dot (azel_raw (az_t + d) el_t) (azel_raw (az_r + d) el_r)
  = np.dot (azel_raw az_t el_t) (azel_raw az_r el_r).
Proof.
  rewrite !dot_azel_raw. unfold cosJ_trig_of.
  replace (az_t + d - (az_r + d)) with (az_t - az_r) by ring. reflexivity.
Qed.

(** X10: the separation angle depends on the two azimuths only through
    their difference.  When the same amount [d] is added to both and each
    sum is within 5e-7 of the exact one, the calculator returns, before and
    after, two angles at most 3e-6 apart, whenever each dot product it
    clamps is within 4e-13 of the exact one. *)
Theorem separation_invariances (az_t el_t az_r el_r d s_t s_r : R) :
  Rabs (s_t - (az_t + d)) <= 5 / 10000000 ->
  Rabs (s_r - (az_r + d)) <= 5 / 10000000 ->
  exists vT vR wT wR,
    azel_to_vec az_t el_t = Some vT
    /\ azel_to_vec az_r el_r = Some vR
    /\ azel_to_vec s_t el_t = Some wT
    /\ azel_to_vec s_r el_r = Some wR
    /\ forall c c',
         Rabs (c - np.dot vT vR) <= 4 / 10000000000000 ->
         Rabs (c' - np.dot wT wR) <= 4 / 10000000000000 ->
         exists a a',
           np.arccos (np.clip c (-1) 1) = Some a
           /\ np.arccos (np.clip c' (-1) 1) = Some a'
           /\ Rabs (a' - a) <= 3 / 1000000.
Proof.
  intros Ht Hr.
  exists (azel_raw az_t el_t), (azel_raw az_r el_r),
    (azel_raw s_t el_t), (azel_raw s_r el_r).
  repeat (split; [ apply azel_to_vec_raw | ]).
  intros c c' Hc Hc'.
  destruct (arccos_clip_micro _ c (raw_dot_range az_t el_t az_r el_r) Hc)
    as (a & Ea & Ba).
  destruct (arccos_clip_micro _ c' (raw_dot_range s_t el_t s_r el_r) Hc')
    as (a' & Ea' & Ba').
  exists a, a'. repeat (split; [ assumption | ]).
  pose proof PI_bounds as Hpi.
  assert (Ht' : - PI <= s_t - (az_t + d) <= PI)
    by (revert Ht; unfold Rabs; destruct (Rcase_abs _); lra).
  assert (Hr' : - PI <= s_r - (az_r + d) <= PI)
    by (revert Hr; unfold Rabs; destruct (Rcase_abs _); lra).
  pose proof (raw_azimuth_angle (az_t + d) s_t el_t Ht') as HT.
  pose proof (raw_azimuth_angle (az_r + d) s_r el_r Hr') as HR.
  rewrite <- (raw_dot_shift az_t el_t az_r el_r d) in Ba.
  set (uT := azel_raw (az_t + d) el_t) in *.
  set (uR := azel_raw (az_r + d) el_r) in *.
  set (wT := azel_raw s_t el_t) in *. set (wR := azel_raw s_r el_r) in *.
  pose proof (raw_triangle s_t el_t (az_t + d) el_t s_r el_r) as T1.
  pose proof (raw_triangle (az_t + d) el_t (az_r + d) el_r s_r el_r) as T2.
  pose proof (raw_triangle (az_t + d) el_t s_t el_t (az_r + d) el_r) as T3.
  pose proof (raw_triangle s_t el_t s_r el_r (az_r + d) el_r) as T4.
  fold uT uR wT wR in T1, T2, T3, T4.
  rewrite (dot_comm wT uT) in T1. rewrite (dot_comm wR uR) in T4.
  revert Ba Ba' Ht Hr HT HR. unfold Rabs.
  repeat destruct (Rcase_abs _); lra.
Qed.

Lemma separation_invariances_witness :
  double_to_R (PrimFloat.add 1000%float np.pi)
  = Some (8823726763426861 / 8796093022208)
  /\ exists vT vR wT wR,
       azel_to_vec 1000 (1 / 2) = Some vT
       /\ azel_to_vec 1000 (1 / 4) = Some vR
       /\ azel_to_vec (8823726763426861 / 8796093022208) (1 / 2) = Some wT
       /\ azel_to_vec (8823726763426861 / 8796093022208) (1 / 4) = Some wR
       /\ forall c c',
            Rabs (c - np.dot vT vR) <= 4 / 10000000000000 ->
            Rabs (c' - np.dot wT wR) <= 4 / 10000000000000 ->
            exists a a',
              np.arccos (np.clip c (-1) 1) = Some a
              /\ np.arccos (np.clip c' (-1) 1) = Some a'
              /\ Rabs (a' - a) <= 3 / 1000000.
Proof.
  split; [ exact double_sum_1000_pi | ].
  pose proof PI_bounds.
  apply (separation_invariances 1000 (1 / 2) 1000 (1 / 4) PI);
    unfold Rabs; destruct (Rcase_abs _); lra.
Defined.

(** ** The encoder (lines 16-26) *)

Lemma azel_raw_elevation_close (az el el' : R) :
  Rabs (vx (azel_raw az el') - vx (azel_raw az el)) <= Rabs (el' - el)
  /\ Rabs (vy (azel_raw az el') - vy (azel_raw az el)) <= Rabs (el' - el)
  /\ Rabs (vz (azel_raw az el') - vz (azel_raw az el)) <= Rabs (el' - el).
Proof.
  simpl. pose proof (COS_bound az) as Hca. pose proof (SIN_bound az) as Hsa.
  pose proof (cos_lipschitz el' el) as Hc.
  pose proof (sin_lipschitz el' el) as Hs.
  assert (Hscale : forall k d, -1 <= k <= 1 -> Rabs (d * k) <= Rabs d).
  { intros k d Hk. rewrite Rabs_mult.
    assert (Rabs k <= 1) by (unfold Rabs; destruct (Rcase_abs _); lra).
    pose proof (Rabs_pos d). nra. }
  repeat split.
  - replace (cos el' * cos az - cos el * cos az)
      with ((cos el' - cos el) * cos az) by ring.
    eapply Rle_trans; [ apply Hscale; assumption | exact Hc ].
  - replace (cos el' * sin az - cos el * sin az)
      with ((cos el' - cos el) * sin az) by ring.
    eapply Rle_trans; [ apply Hscale; assumption | exact Hc ].
  - exact Hs.
Qed.

Lemma azel_raw_over_the_top (az el : R) :
  azel_raw az (PI - el) = azel_raw (az + PI) el.
Proof.
  unfold azel_raw; cbv zeta.
  rewrite sin_PI_x, neg_cos, neg_sin, cos_PI_minus. f_equal; ring.
Qed.

(** X13: the encoder does not confine the elevation.  An elevation [p]
    standing for PI - el encodes, at azimuth [az], the vector that
    elevation [el] encodes at an azimuth [s] standing for az + PI, each
    component up to the distances |p - (PI - el)| and |s - (az + PI)|
    added. *)
Theorem encoder_over_the_top (az el p s : R) :
  exists v w,
    azel_to_vec az p = Some v
    /\ azel_to_vec s el = Some w
    /\ Rabs (vx v - vx w)
       <= Rabs (p - (PI - el)) + Rabs (s - (az + PI))
    /\ Rabs (vy v - vy w)
       <= Rabs (p - (PI - el)) + Rabs (s - (az + PI))
    /\ Rabs (vz v - vz w) <= Rabs (p - (PI - el)).
Proof.
  exists (azel_raw az p), (azel_raw s el).
  split; [ apply azel_to_vec_raw | ].
  split; [ apply azel_to_vec_raw | ].
  destruct (azel_raw_elevation_close az (PI - el) p) as (Ex & Ey & Ez).
  destruct (azel_raw_azimuth_close (az + PI) s el) as (Ax & Ay & Az).
  rewrite (azel_raw_over_the_top az el) in Ex, Ey, Ez.
  set (m := azel_raw (az + PI) el) in *.
  set (v := azel_raw az p) in *. set (w := azel_raw s el) in *.
  rewrite Az. revert Ex Ey Ez Ax Ay. unfold Rabs.
  repeat destruct (Rcase_abs _); intros; repeat split; lra.
Qed.
